(** * Validation results and validator sets

    A shallow embedding of the Go package [validator] of the manifest
    verification tool, in its two source files:

    - [pkg/validate/validator/validator.go] (module [ValidatorGo] below),
    - the second file of the same package, with the additional
      [InvalidDefaultChannel] constructor and [ErrorType.String]
      (module [Part000] below).

    The declarations of [ManifestResult], [Error], [ErrorType],
    [Error.Error], [ValidatorSet], [NewValidatorSet], [AddValidators] and
    [ValidateAll] are textually the same in the two files; they are embedded
    once, in section [Common].  The constructors, the [ErrorType] constants
    and the two [String] methods differ and are embedded per file. *)

From Stdlib Require Import String Ascii List Bool Arith Lia.
From stdpp Require Import base strings gmap list.

Import ListNotations.
Local Open Scope string_scope.
Local Open Scope list_scope.

(** ** Go's dynamic values and [fmt]

    [BadValue] has type [interface{}]: any Go value.  The code only ever
    stores such a value, converts the string literal [""] to it, and prints
    it with the verb [%v]; [ErrorType.String] quotes a string with [%q].
    These three operations of the Go runtime and of package [fmt] are the
    interface the embedding is parameterised by. *)
Class Fmt (any : Type) := {
  any_string : string -> any;   (* a Go string converted to interface{} *)
  fmt_v : any -> string;        (* fmt.Sprintf("%v", x) *)
  fmt_q : string -> string      (* fmt.Sprintf("%q", s) *)
}.

(** A Go function either returns or panics with a message. *)
Inductive result (A : Type) : Type :=
| Ok (a : A)
| Panic (msg : string).
Arguments Ok {A} a.
Arguments Panic {A} msg.

(** ** Declarations shared by the two files *)
Section Common.
Context {any : Type}.

(** [type ErrorType string] *)
Definition ErrorType : Type := string.

(** [type Error struct { Type ErrorType; Field string;
                          BadValue interface{}; Detail string }] *)
Record Error : Type := mkError {
  Type_ : ErrorType;
  Field : string;
  BadValue : any;
  Detail : string
}.

(** [func (err Error) Error() string { return err.Detail }] *)
Definition Error_Error (err : Error) : string := Detail err.

(** [type ManifestResult struct { Name string; Errors []Error;
                                   Warnings []Error }].
    A slice value is modelled by the sequence of its elements: the code
    only uses [range] and [append] on slices, which do not tell the nil
    slice from an empty one. *)
Record ManifestResult : Type := mkManifestResult {
  Name : string;
  Errors : list Error;
  Warnings : list Error
}.

(** *** The [Validator] interface

    The interface is declared elsewhere in the package; the two files call
    its methods [Name()] and [Validate()].  [Validate] may read and change
    anything outside the set (files, its own fields): the state it runs in
    is the abstract [World]. *)
Context {World : Type}.

(** State-passing computations over the world. *)
Definition M (A : Type) : Type := World -> A * World.
Definition ret {A} (a : A) : M A := fun w => (a, w).
Definition bind {A B} (m : M A) (k : A -> M B) : M B :=
  fun w => let '(a, w') := m w in k a w'.

Record Validator : Type := mkValidator {
  Validator_Name : string;
  Validator_Validate : M (list ManifestResult)
}.

(** [type ValidatorSet struct { validators []Validator }] *)
Record ValidatorSet : Type := mkValidatorSet {
  validators : list Validator
}.

(** The body of [for _, v := range vs] in [AddValidators]: [seenNames] is
    the local map, [acc] is [set.validators]. *)
Fixpoint AddValidators_range (vs : list Validator) (seenNames : gset string)
    (acc : list Validator) : list Validator :=
  match vs with
  | [] => acc
  | v :: vs' =>
      if decide (Validator_Name v ∈ seenNames)
      then AddValidators_range vs' seenNames acc
      else AddValidators_range vs' ({[Validator_Name v]} ∪ seenNames) (acc ++ [v])
  end.

(** [func (set *ValidatorSet) AddValidators(vs ...Validator)]: the pointer
    receiver is updated in place; here the updated set is returned.
    [seenNames := map[string]struct{}{}] starts empty at every call. *)
Definition AddValidators (set : ValidatorSet) (vs : list Validator) : ValidatorSet :=
  {| validators := AddValidators_range vs ∅ (validators set) |}.

(** [func NewValidatorSet(vs ...Validator) *ValidatorSet] *)
Definition NewValidatorSet (vs : list Validator) : ValidatorSet :=
  AddValidators {| validators := [] |} vs.

(** The body of [for _, v := range set.validators] in [ValidateAll]. *)
Fixpoint ValidateAll_range (vs : list Validator)
    (allResults : list ManifestResult) : M (list ManifestResult) :=
  match vs with
  | [] => ret allResults
  | v :: vs' =>
      bind (Validator_Validate v) (fun results =>
      ValidateAll_range vs' (allResults ++ results))
  end.

(** [func (set ValidatorSet) ValidateAll() (allResults []ManifestResult)]:
    the named result starts as the zero value of its type, the slice with
    no elements. *)
Definition ValidateAll (set : ValidatorSet) : M (list ManifestResult) :=
  ValidateAll_range (validators set) [].

(** A program variable holding a set, next to the world.  [AddValidators]
    has a pointer receiver and writes the variable; [ValidateAll] has a
    value receiver and works on a copy. *)
Record State : Type := mkState {
  st_set : ValidatorSet;
  st_world : World
}.

Definition call_AddValidators (vs : list Validator) (st : State) : unit * State :=
  (tt, {| st_set := AddValidators (st_set st) vs; st_world := st_world st |}).

Definition call_ValidateAll (st : State) : list ManifestResult * State :=
  let '(allResults, w) := ValidateAll (st_set st) (st_world st) in
  (allResults, {| st_set := st_set st; st_world := w |}).

End Common.

Arguments Error any : clear implicits.
Arguments ManifestResult any : clear implicits.
Arguments Validator any World : clear implicits.
Arguments ValidatorSet any World : clear implicits.
Arguments State any World : clear implicits.
Arguments M World A : clear implicits.

(** ** [pkg/validate/validator/validator.go] *)
Module ValidatorGo.
Section Errors.
Context {any : Type} `{Fmt any}.

Definition ErrorInvalidCSV : ErrorType := "CSVFileNotValid".
Definition WarningFieldMissing : ErrorType := "OptionalFieldNotFound".
Definition ErrorFieldMissing : ErrorType := "MandatoryFieldNotFound".
Definition ErrorUnsupportedType : ErrorType := "FieldTypeNotSupported".
Definition ErrorInvalidParse : ErrorType := "Unmarshall/ParseError".
Definition ErrorIO : ErrorType := "FileReadError".
Definition ErrorFailedValidation : ErrorType := "ValidationFailed".
Definition ErrorInvalidOperation : ErrorType := "OperationFailed".

Definition InvalidCSV (detail : string) : Error any :=
  mkError ErrorInvalidCSV "" (any_string "") detail.

Definition OptionalFieldMissing (field : string) (value : any) (detail : string) : Error any :=
  mkError WarningFieldMissing field value detail.

Definition MandatoryFieldMissing (field : string) (value : any) (detail : string) : Error any :=
  mkError ErrorFieldMissing field value detail.

Definition UnsupportedType (detail : string) : Error any :=
  mkError ErrorUnsupportedType "" (any_string "") detail.

Definition InvalidParse (detail : string) (value : any) : Error any :=
  mkError ErrorInvalidParse "" value detail.

Definition IOError (detail : string) (value : any) : Error any :=
  mkError ErrorIO "" value detail.

Definition FailedValidation (detail : string) (value : any) : Error any :=
  mkError ErrorFailedValidation "" value detail.

(** In this file the constructor has one parameter. *)
Definition InvalidOperation (detail : string) : Error any :=
  mkError ErrorInvalidOperation "" (any_string "") detail.

(** [func (err Error) String() string]:
    [fmt.Sprintf("Error type: %s | Field: %s | Value: %v | Detail: %s",
                 err.Type, err.Field, err.BadValue, err.Detail)].
    [ErrorType] has no [String] method in this file, so [%s] prints the
    string the kind is. *)
Definition Error_String (err : Error any) : string :=
  "Error type: " +:+ Type_ err +:+ " | Field: " +:+ Field err +:+
  " | Value: " +:+ fmt_v (BadValue err) +:+ " | Detail: " +:+ Detail err.

(** The kinds the constructors of this file produce. *)
Definition kinds : list ErrorType :=
  [ErrorInvalidCSV; WarningFieldMissing; ErrorFieldMissing; ErrorUnsupportedType;
   ErrorInvalidParse; ErrorIO; ErrorFailedValidation; ErrorInvalidOperation].
End Errors.
End ValidatorGo.

(** ** The second file of the package *)
Module Part000.
Section Errors.
Context {any : Type} `{Fmt any}.

Definition ErrorInvalidCSV : ErrorType := "CSVFileNotValid".
Definition WarningFieldMissing : ErrorType := "OptionalFieldNotFound".
Definition ErrorFieldMissing : ErrorType := "MandatoryFieldNotFound".
Definition ErrorUnsupportedType : ErrorType := "FieldTypeNotSupported".
Definition ErrorInvalidParse : ErrorType := "Unmarshall/ParseError".
Definition ErrorIO : ErrorType := "FileReadError".
Definition ErrorFailedValidation : ErrorType := "ValidationFailed".
Definition ErrorInvalidOperation : ErrorType := "OperationFailed".
Definition ErrorInvalidDefaultChannel : ErrorType := "DefaultChannelNotValid".

(** The [const] block, in declaration order. *)
Definition kinds : list ErrorType :=
  [ErrorInvalidCSV; WarningFieldMissing; ErrorFieldMissing; ErrorUnsupportedType;
   ErrorInvalidParse; ErrorIO; ErrorFailedValidation; ErrorInvalidOperation;
   ErrorInvalidDefaultChannel].

Definition InvalidCSV (detail : string) : Error any :=
  mkError ErrorInvalidCSV "" (any_string "") detail.

Definition InvalidDefaultChannel (detail : string) (value : any) : Error any :=
  mkError ErrorInvalidDefaultChannel "" value detail.

Definition OptionalFieldMissing (detail : string) (field : string) (value : any) : Error any :=
  mkError WarningFieldMissing field value detail.

Definition MandatoryFieldMissing (detail : string) (field : string) (value : any) : Error any :=
  mkError ErrorFieldMissing field value detail.

Definition UnsupportedType (detail : string) : Error any :=
  mkError ErrorUnsupportedType "" (any_string "") detail.

Definition InvalidParse (detail : string) (value : any) : Error any :=
  mkError ErrorInvalidParse "" value detail.

Definition IOError (detail : string) (value : any) : Error any :=
  mkError ErrorIO "" value detail.

Definition FailedValidation (detail : string) (value : any) : Error any :=
  mkError ErrorFailedValidation "" value detail.

Definition InvalidOperation (detail : string) (value : any) : Error any :=
  mkError ErrorInvalidOperation "" value detail.

(** [func (t ErrorType) String() string]: the [switch] compares [t] with
    the cases from top to bottom; [default] panics. *)
Definition ErrorType_String (t : ErrorType) : result string :=
  if String.eqb t ErrorInvalidCSV then Ok "CSV file not valid"
  else if String.eqb t WarningFieldMissing then Ok "Optional field not found"
  else if String.eqb t ErrorFieldMissing then Ok "Mandatory field not found"
  else if String.eqb t ErrorUnsupportedType then Ok "Field type not supported"
  else if String.eqb t ErrorInvalidParse then Ok "Unmarshall/Parse error"
  else if String.eqb t ErrorIO then Ok "File read error"
  else if String.eqb t ErrorFailedValidation then Ok "Validation failed"
  else if String.eqb t ErrorInvalidOperation then Ok "Operation failed"
  else if String.eqb t ErrorInvalidDefaultChannel then Ok "Default channel not found"
  else Panic ("Unrecognized validation error: " +:+ fmt_q t).

(** [func (err Error) String() string { return err.Error() }]: the
    [Sprintf] line above the [return] is commented out in the source. *)
Definition Error_String (err : Error any) : string := Error_Error err.
End Errors.
End Part000.

(** ** Sample values

    Strings as the dynamic values, printed as they are; [%q] puts the string
    between two quote characters (what Go does for a string of plain
    letters and digits). *)
Definition quote_char : string := String (ascii_of_nat 34) "".

#[export] Instance string_Fmt : Fmt string := {
  any_string := fun s => s;
  fmt_v := fun s => s;
  fmt_q := fun s => quote_char +:+ s +:+ quote_char
}.

(** A validator that reports one fixed list of results and records its own
    name in the world, a log of the [Validate] calls made so far. *)
Definition logging_validator (name : string) (results : list (ManifestResult string))
  : Validator string (list string) :=
  {| Validator_Name := name;
     Validator_Validate := fun log => (results, log ++ [name]) |}.

(** A validator that only reads: it leaves the world as it found it. *)
Definition fixed_validator {World : Type} (name : string)
    (results : list (ManifestResult string)) : Validator string World :=
  {| Validator_Name := name;
     Validator_Validate := fun w => (results, w) |}.

(** The two validators of the end-to-end scenario. *)
Definition csv_result : ManifestResult string :=
  {| Name := "my-operator.v1.0.0";
     Errors := [Part000.InvalidCSV "CSV missing required field 'displayName'"];
     Warnings := [] |}.

Definition channel_result : ManifestResult string :=
  {| Name := "my-operator.v1.0.0";
     Errors := [];
     Warnings := [Part000.InvalidDefaultChannel "channel 'alpha' not declared" "alpha"] |}.

Definition csv_validator : Validator string (list string) :=
  logging_validator "csv" [csv_result].

Definition channel_validator : Validator string (list string) :=
  logging_validator "channel" [channel_result].

(** A third validator, which finds nothing to report. *)
Definition package_validator : Validator string (list string) :=
  logging_validator "package" [].

(** The set of the first end-to-end scenario, with the third validator
    registered last. *)
Definition three_validators : ValidatorSet string (list string) :=
  NewValidatorSet [csv_validator; channel_validator; package_validator].

(** A validator whose report depends on the world: nothing while the flag
    is down, one result when it is up. *)
Definition moody_validator (name : string) : Validator string bool :=
  {| Validator_Name := name;
     Validator_Validate := fun flag : bool =>
       (if flag then [csv_result] else [], flag) |}.

(** A set that reports nothing in a run with the flag down, and reports in
    a run with the flag up. *)
Definition moody_validators : ValidatorSet string bool :=
  NewValidatorSet [moody_validator "csv"; fixed_validator "channel" []].

(** A set of two validators that read only. *)
Definition reading_validators : ValidatorSet string unit :=
  NewValidatorSet [fixed_validator "csv" [csv_result];
                   fixed_validator "channel" [channel_result]].

(** The set of the second end-to-end scenario: created empty, then the same
    validator given to two separate [AddValidators] calls. *)
Definition added_twice : ValidatorSet string (list string) :=
  AddValidators (AddValidators (NewValidatorSet []) [csv_validator]) [csv_validator].

(** ** Reading a rendering

    [contains sub s]: [sub] occurs in [s] as a contiguous piece. *)
Fixpoint contains (sub s : string) : bool :=
  String.prefix sub s ||
  match s with
  | EmptyString => false
  | String _ s' => contains sub s'
  end.

(** The verbose rendering as the specification words it, for the file that
    has the table of descriptions: the rendering of [err] mentions the
    description of its kind, its field, the display form of its value and
    its detail. *)
Definition verbose_mentions_all {any : Type} `{Fmt any} (err : Error any) : Prop :=
  exists description,
    Part000.ErrorType_String (Type_ err) = Ok description /\
    contains description (Part000.Error_String err) = true /\
    contains (Field err) (Part000.Error_String err) = true /\
    contains (fmt_v (BadValue err)) (Part000.Error_String err) = true /\
    contains (Detail err) (Part000.Error_String err) = true.

(** ** The kinds as the specification names them

    The nine kinds of the specification's error model, in the order of its
    data model, and the constant of the [const] block each one stands for
    (the eight constants of [validator.go] are the same strings). *)
Inductive Kind : Type :=
| invalid_document
| optional_field_missing
| mandatory_field_missing
| unsupported_type
| parse_error
| io_error
| validation_failed
| operation_failed
| invalid_default_channel.

Definition all_kinds : list Kind :=
  [invalid_document; optional_field_missing; mandatory_field_missing;
   unsupported_type; parse_error; io_error; validation_failed;
   operation_failed; invalid_default_channel].

Definition kind_constant (k : Kind) : ErrorType :=
  match k with
  | invalid_document => Part000.ErrorInvalidCSV
  | optional_field_missing => Part000.WarningFieldMissing
  | mandatory_field_missing => Part000.ErrorFieldMissing
  | unsupported_type => Part000.ErrorUnsupportedType
  | parse_error => Part000.ErrorInvalidParse
  | io_error => Part000.ErrorIO
  | validation_failed => Part000.ErrorFailedValidation
  | operation_failed => Part000.ErrorInvalidOperation
  | invalid_default_channel => Part000.ErrorInvalidDefaultChannel
  end.

(** [err] has the kind [k] and its terse rendering is [detail]. *)
Definition built_as {any : Type} (k : Kind) (detail : string) (err : Error any) : Prop :=
  Type_ err = kind_constant k /\ Error_Error err = detail.

(** ** The result of [ValidateAll] as a Go slice

    A Go slice value is either the nil slice, the zero value of its type
    ([s == nil], length 0, written [null] by [encoding/json]), or a slice
    with a backing array, of any length, zero included. *)
Inductive slice (A : Type) : Type :=
| nil_slice
| make_slice (elems : list A).
Arguments nil_slice {A}.
Arguments make_slice {A} elems.

Definition slice_elems {A : Type} (s : slice A) : list A :=
  match s with
  | nil_slice => []
  | make_slice elems => elems
  end.

Definition slice_len {A : Type} (s : slice A) : nat := length (slice_elems s).

(** [append(s, xs...)]: with nothing to append there is room in [s], which
    is returned as it is, the nil slice included; with something to append
    the result has a backing array.  Only the elements of [xs] matter, not
    whether [xs] is nil. *)
Definition go_append {A : Type} (s : slice A) (xs : list A) : slice A :=
  match xs with
  | [] => s
  | _ :: _ => make_slice (slice_elems s ++ xs)
  end.

(** The loop of [ValidateAll] again, on the slice the source accumulates. *)
Fixpoint ValidateAll_slice_range {any World : Type} (vs : list (Validator any World))
    (allResults : slice (ManifestResult any)) : M World (slice (ManifestResult any)) :=
  match vs with
  | [] => ret allResults
  | v :: vs' =>
      bind (Validator_Validate v) (fun results =>
      ValidateAll_slice_range vs' (go_append allResults results))
  end.

(** [func (set ValidatorSet) ValidateAll() (allResults []ManifestResult)],
    with the named result as the slice it is: it starts as the zero value
    of [[]ManifestResult], the nil slice, and is returned after the loop. *)
Definition ValidateAll_slice {any World : Type} (set : ValidatorSet any World)
  : M World (slice (ManifestResult any)) :=
  ValidateAll_slice_range (validators set) nil_slice.

(** The result as the specification words it: an empty sequence that is not
    a missing value. *)
Definition empty_not_missing {A : Type} (s : slice A) : Prop :=
  slice_elems s = [] /\ s <> nil_slice.

(** ** Reference definitions for the properties below *)

(** Every validator of [vs] run once, in order, each in the world the one
    before it left; the results kept apart, one list per validator. *)
Fixpoint Validate_each {any World : Type} (vs : list (Validator any World))
  : M World (list (list (ManifestResult any))) :=
  match vs with
  | [] => ret []
  | v :: vs' =>
      bind (Validator_Validate v) (fun results =>
      bind (Validate_each vs') (fun rest => ret (results :: rest)))
  end.

(** The names of a list of validators, in order. *)
Definition names {any World : Type} (vs : list (Validator any World)) : list string :=
  Validator_Name <$> vs.

(** The errors the constructors of the second file can return. *)
Inductive built_by_Part000 {any : Type} `{Fmt any} : Error any -> Prop :=
| built_InvalidCSV detail :
    built_by_Part000 (Part000.InvalidCSV detail)
| built_InvalidDefaultChannel detail value :
    built_by_Part000 (Part000.InvalidDefaultChannel detail value)
| built_OptionalFieldMissing detail field value :
    built_by_Part000 (Part000.OptionalFieldMissing detail field value)
| built_MandatoryFieldMissing detail field value :
    built_by_Part000 (Part000.MandatoryFieldMissing detail field value)
| built_UnsupportedType detail :
    built_by_Part000 (Part000.UnsupportedType detail)
| built_InvalidParse detail value :
    built_by_Part000 (Part000.InvalidParse detail value)
| built_IOError detail value :
    built_by_Part000 (Part000.IOError detail value)
| built_FailedValidation detail value :
    built_by_Part000 (Part000.FailedValidation detail value)
| built_InvalidOperation detail value :
    built_by_Part000 (Part000.InvalidOperation detail value).

(** The errors the constructors of [validator.go] can return. *)
Inductive built_by_ValidatorGo {any : Type} `{Fmt any} : Error any -> Prop :=
| built_go_InvalidCSV detail :
    built_by_ValidatorGo (ValidatorGo.InvalidCSV detail)
| built_go_OptionalFieldMissing field value detail :
    built_by_ValidatorGo (ValidatorGo.OptionalFieldMissing field value detail)
| built_go_MandatoryFieldMissing field value detail :
    built_by_ValidatorGo (ValidatorGo.MandatoryFieldMissing field value detail)
| built_go_UnsupportedType detail :
    built_by_ValidatorGo (ValidatorGo.UnsupportedType detail)
| built_go_InvalidParse detail value :
    built_by_ValidatorGo (ValidatorGo.InvalidParse detail value)
| built_go_IOError detail value :
    built_by_ValidatorGo (ValidatorGo.IOError detail value)
| built_go_FailedValidation detail value :
    built_by_ValidatorGo (ValidatorGo.FailedValidation detail value)
| built_go_InvalidOperation detail :
    built_by_ValidatorGo (ValidatorGo.InvalidOperation detail).

(** ** The validator set: registration *)
Section Registration.
Context {any World : Type}.
Implicit Types (v : Validator any World) (vs acc : list (Validator any World)).
Implicit Types (set : ValidatorSet any World) (seenNames : gset string).

(** What one pass of the loop appends does not depend on what the set
    already holds. *)
Lemma AddValidators_range_acc vs seenNames acc :
  AddValidators_range vs seenNames acc = acc ++ AddValidators_range vs seenNames [].
Proof.
  revert seenNames acc.
  induction vs as [|v vs IH]; intros seenNames acc; simpl.
  - by rewrite app_nil_r.
  - destruct (decide (Validator_Name v ∈ seenNames)); [apply IH|].
    rewrite (IH _ (acc ++ [v])), (IH _ [v]). by rewrite <- app_assoc.
Qed.

Lemma AddValidators_validators set vs :
  validators (AddValidators set vs) =
  validators set ++ validators (NewValidatorSet vs).
Proof. simpl. apply AddValidators_range_acc. Qed.

(** The names appended by the loop are new with respect to [seenNames] and
    pairwise different. *)
Lemma AddValidators_range_fresh vs seenNames v :
  v ∈ AddValidators_range vs seenNames [] → Validator_Name v ∉ seenNames.
Proof.
  revert seenNames.
  induction vs as [|u vs IH]; intros seenNames; simpl.
  - by intros ?%elem_of_nil.
  - destruct (decide (Validator_Name u ∈ seenNames)) as [|Hu]; [apply IH|].
    rewrite AddValidators_range_acc.
    intros [->%list_elem_of_singleton|Hv%IH]%elem_of_app; [done|set_solver].
Qed.

Lemma AddValidators_range_NoDup vs seenNames :
  NoDup (Validator_Name <$> AddValidators_range vs seenNames []).
Proof.
  revert seenNames.
  induction vs as [|u vs IH]; intros seenNames; simpl.
  - constructor.
  - destruct (decide (Validator_Name u ∈ seenNames)) as [|Hu]; [apply IH|].
    rewrite AddValidators_range_acc. simpl. constructor; [|apply IH].
    intros (v & Hname & Hv%AddValidators_range_fresh)%list_elem_of_fmap.
    set_solver.
Qed.

(** Within one call on a new set the names are unique. *)
Lemma NewValidatorSet_NoDup vs :
  NoDup (Validator_Name <$> validators (NewValidatorSet vs)).
Proof. apply AddValidators_range_NoDup. Qed.

(** A validator whose name the set already holds is appended again by a
    later call. *)
Lemma AddValidators_again set v :
  validators (AddValidators set [v]) = validators set ++ [v].
Proof. rewrite AddValidators_validators. reflexivity. Qed.

(** The loop appends only validators it was given. *)
Lemma AddValidators_range_given vs seenNames v :
  v ∈ AddValidators_range vs seenNames [] → v ∈ vs.
Proof.
  revert seenNames.
  induction vs as [|u vs IH]; intros seenNames; simpl.
  - done.
  - destruct (decide (Validator_Name u ∈ seenNames)) as [|Hu].
    + intros ?%IH. by right.
    + rewrite AddValidators_range_acc.
      intros [Hv%list_elem_of_singleton|?%IH]%elem_of_app; [subst v; left|by right].
Qed.

(** Within one call the first validator given under a name is the one that
    is appended. *)
Lemma AddValidators_range_first vs seenNames (name : string) :
  List.find (fun v => bool_decide (Validator_Name v = name))
            (AddValidators_range vs seenNames []) =
  if decide (name ∈ seenNames) then None
  else List.find (fun v => bool_decide (Validator_Name v = name)) vs.
Proof.
  revert seenNames.
  induction vs as [|u vs IH]; intros seenNames; simpl.
  - by destruct (decide (name ∈ seenNames)).
  - destruct (decide (Validator_Name u ∈ seenNames)) as [Hu|Hu].
    + rewrite IH. destruct (decide (name ∈ seenNames)) as [|Hname]; [done|].
      rewrite bool_decide_eq_false_2; [done|].
      intros Heq. apply Hname. by rewrite <- Heq.
    + rewrite AddValidators_range_acc. simpl. rewrite IH.
      destruct (decide (Validator_Name u = name)) as [<-|Hne].
      * rewrite bool_decide_eq_true_2 by done. by rewrite decide_False.
      * rewrite bool_decide_eq_false_2 by done.
        destruct (decide (name ∈ seenNames)) as [Hin|Hout].
        -- rewrite decide_True; [done|]. apply elem_of_union. by right.
        -- rewrite decide_False; [done|].
           intros [Heq%elem_of_singleton|Hin]%elem_of_union; by auto.
Qed.

Lemma NewValidatorSet_first_wins vs (name : string) :
  List.find (fun v => bool_decide (Validator_Name v = name))
            (validators (NewValidatorSet vs)) =
  List.find (fun v => bool_decide (Validator_Name v = name)) vs.
Proof.
  unfold NewValidatorSet, AddValidators. simpl.
  rewrite AddValidators_range_first. by rewrite decide_False.
Qed.

(** The names stay unique across calls as long as no later call is given a
    name the set already holds. *)
Lemma AddValidators_NoDup set vs :
  NoDup (Validator_Name <$> validators set) →
  (∀ v, v ∈ vs → Validator_Name v ∉ Validator_Name <$> validators set) →
  NoDup (Validator_Name <$> validators (AddValidators set vs)).
Proof.
  intros Hset Hnew. rewrite AddValidators_validators, fmap_app.
  apply NoDup_app. split; [exact Hset|]. split; [|apply NewValidatorSet_NoDup].
  intros name Hold (v & -> & Hv)%list_elem_of_fmap.
  apply AddValidators_range_given in Hv. by apply (Hnew v).
Qed.

End Registration.

(** ** The validator set: execution *)
Section Execution.
Context {any World : Type}.
Implicit Types (v : Validator any World) (vs : list (Validator any World)).
Implicit Types (set : ValidatorSet any World) (w : World).
Implicit Types (allResults : list (ManifestResult any)).

(** The results already collected stay in front, untouched. *)
Lemma ValidateAll_range_acc vs allResults w :
  ValidateAll_range vs allResults w =
  (allResults ++ fst (ValidateAll_range vs [] w), snd (ValidateAll_range vs [] w)).
Proof.
  revert allResults w.
  induction vs as [|v vs IH]; intros allResults w; simpl.
  - unfold ret. simpl. by rewrite app_nil_r.
  - unfold bind. destruct (Validator_Validate v w) as [results w'].
    rewrite (IH (allResults ++ results)), (IH ([] ++ results)). simpl.
    by rewrite <- app_assoc.
Qed.

(** One step of the loop, as an equation on the whole run. *)
Lemma ValidateAll_cons v vs w :
  ValidateAll {| validators := v :: vs |} w =
  (fst (Validator_Validate v w) ++
     fst (ValidateAll {| validators := vs |} (snd (Validator_Validate v w))),
   snd (ValidateAll {| validators := vs |} (snd (Validator_Validate v w)))).
Proof.
  unfold ValidateAll. simpl. unfold bind.
  destruct (Validator_Validate v w) as [results w']. simpl.
  apply ValidateAll_range_acc.
Qed.

Lemma ValidateAll_nil w :
  ValidateAll (any:=any) {| validators := [] |} w = ([], w).
Proof. reflexivity. Qed.

(** Validators that only read leave the world of a run as it was. *)
Lemma ValidateAll_read_only vs w :
  Forall (fun v => forall w', snd (Validator_Validate v w') = w') vs ->
  snd (ValidateAll {| validators := vs |} w) = w.
Proof.
  intros Hvs. revert w.
  induction Hvs as [|v vs Hv _ IH]; intros w.
  - reflexivity.
  - rewrite ValidateAll_cons. simpl. by rewrite IH, Hv.
Qed.

End Execution.

(** ** Claims about the validator set *)
Section ValidatorSetClaims.
Context {any World : Type}.
Implicit Types (v : Validator any World) (vs : list (Validator any World)).
Implicit Types (set : ValidatorSet any World) (w : World).

(** C2: for a set whose registered validators are V1, V2, V3 in that order,
    where the three [Validate] calls of the run return R1, R2 and R3,
    [ValidateAll] returns exactly R1 ++ R2 ++ R3: every result as it was
    returned, nothing reordered, dropped or merged. *)
Theorem ValidateAll_concatenates set V1 V2 V3 R1 R2 R3 w0 w1 w2 w3 :
  validators set = [V1; V2; V3] ->
  Validator_Validate V1 w0 = (R1, w1) ->
  Validator_Validate V2 w1 = (R2, w2) ->
  Validator_Validate V3 w2 = (R3, w3) ->
  ValidateAll set w0 = (R1 ++ R2 ++ R3, w3).
Proof.
  intros Hset H1 H2 H3. destruct set as [l]. simpl in Hset. subst l.
  rewrite !ValidateAll_cons, H1. simpl. rewrite H2. simpl. rewrite H3. simpl.
  by rewrite app_nil_r.
Qed.

(** C9: with validators that only read the world, two runs of
    [ValidateAll] in a row on the same variable return equal sequences, and
    neither run changes the validators registered in the variable. *)
Theorem ValidateAll_repeatable (st : State any World) :
  Forall (fun v => forall w, snd (Validator_Validate v w) = w)
         (validators (st_set st)) ->
  fst (call_ValidateAll (snd (call_ValidateAll st))) = fst (call_ValidateAll st) /\
  st_set (snd (call_ValidateAll st)) = st_set st /\
  st_set (snd (call_ValidateAll (snd (call_ValidateAll st)))) = st_set st.
Proof.
  intros Hro. destruct st as [[l] w]. simpl in Hro.
  pose proof (ValidateAll_read_only l w Hro) as Hw.
  unfold call_ValidateAll. simpl.
  destruct (ValidateAll {| validators := l |} w) as [r1 w1] eqn:E1. simpl in *.
  subst w1. rewrite E1. done.
Qed.

(** C10: a call of [AddValidators] only appends.  The sequence registered
    before the call is a prefix of the sequence after it, entry for entry;
    what is appended is what the same arguments add to a new set; and a call
    with no arguments leaves the set as it was. *)
Theorem AddValidators_only_appends set vs :
  validators (AddValidators set vs) =
    validators set ++ validators (NewValidatorSet vs) /\
  take (length (validators set)) (validators (AddValidators set vs)) =
    validators set /\
  validators set `prefix_of` validators (AddValidators set vs) /\
  AddValidators set [] = set.
Proof.
  pose proof (AddValidators_validators set vs) as Happ.
  split; [exact Happ|]. split; [|split].
  - rewrite Happ. by rewrite take_app_length.
  - rewrite Happ. by apply prefix_app_r.
  - by destruct set.
Qed.

End ValidatorSetClaims.

(** The end-to-end scenario: both results, in registration order, each as
    its validator returned it, and every validator called once. *)
Lemma ValidateAll_concatenates_witness :
  ValidateAll three_validators [] =
  ([csv_result] ++ [channel_result] ++ [], ["csv"; "channel"; "package"]).
Proof.
  apply (ValidateAll_concatenates three_validators
           csv_validator channel_validator package_validator
           [csv_result] [channel_result] []
           [] ["csv"] ["csv"; "channel"] ["csv"; "channel"; "package"]);
    vm_compute; reflexivity.
Defined.

Lemma ValidateAll_repeatable_witness :
  let st := {| st_set := reading_validators; st_world := tt |} in
  fst (call_ValidateAll (snd (call_ValidateAll st))) = fst (call_ValidateAll st) /\
  st_set (snd (call_ValidateAll st)) = st_set st /\
  st_set (snd (call_ValidateAll (snd (call_ValidateAll st)))) = st_set st.
Proof.
  apply (ValidateAll_repeatable {| st_set := reading_validators; st_world := tt |}).
  vm_compute. repeat constructor.
Defined.

(** C1: the set of the end-to-end scenario, where one validator is given to
    two separate [AddValidators] calls.  [seenNames] is new in each call, so
    the second call appends the validator again: the set holds the name
    [csv] twice, and [ValidateAll] calls the validator twice and returns its
    result twice. *)
Theorem added_twice_runs_twice :
  Validator_Name <$> validators added_twice = ["csv"; "csv"] /\
  ~ NoDup (Validator_Name <$> validators added_twice) /\
  ValidateAll added_twice [] = ([csv_result; csv_result], ["csv"; "csv"]).
Proof.
  split; [reflexivity|]. split; [|reflexivity].
  change (Validator_Name <$> validators added_twice) with ["csv"; "csv"].
  intros Hnd. apply NoDup_cons in Hnd as [Hin _]. apply Hin. left.
Qed.

(** ** Occurrences in a string *)
Lemma prefix_append (p s : string) : String.prefix p (p +:+ s) = true.
Proof.
  induction p as [|c p IH]; simpl.
  - by destruct s.
  - destruct (ascii_dec c c); [exact IH|congruence].
Qed.

Lemma prefix_inv (p s : string) :
  String.prefix p s = true -> exists b, s = p +:+ b.
Proof.
  revert s. induction p as [|c p IH]; intros s; simpl.
  - intros _. by exists s.
  - destruct s as [|d s]; simpl; [intros [=]|].
    destruct (ascii_dec c d) as [->|]; [|intros [=]].
    intros [b ->]%IH. by exists b.
Qed.

Lemma append_nil_r (s : string) : s +:+ "" = s.
Proof.
  induction s as [|c s IH]; [reflexivity|].
  change (String c (s +:+ "") = String c s). by rewrite IH.
Qed.

Lemma contains_unfold (sub s : string) :
  contains sub s =
  String.prefix sub s ||
  match s with EmptyString => false | String _ s' => contains sub s' end.
Proof. by destruct s. Qed.

Lemma contains_of_prefix (sub s : string) :
  String.prefix sub s = true -> contains sub s = true.
Proof. intros Hp. rewrite contains_unfold, Hp. reflexivity. Qed.

Lemma contains_prefix (sub b : string) : contains sub (sub +:+ b) = true.
Proof. apply contains_of_prefix, prefix_append. Qed.

Lemma contains_self (s : string) : contains s s = true.
Proof.
  pose proof (contains_prefix s "") as Hp. by rewrite append_nil_r in Hp.
Qed.

Lemma contains_append_r (a s sub : string) :
  contains sub s = true -> contains sub (a +:+ s) = true.
Proof.
  intros Hs. induction a as [|c a IH]; simpl; [exact Hs|].
  rewrite IH. apply orb_true_r.
Qed.

Lemma contains_spec (sub s : string) :
  contains sub s = true <-> exists a b, s = a +:+ sub +:+ b.
Proof.
  split.
  - induction s as [|c s IH]; rewrite contains_unfold.
    + rewrite orb_false_r. intros [b Hb]%prefix_inv. by exists "", b.
    + intros [Hp|Hc]%orb_true_iff.
      * apply prefix_inv in Hp as [b Hb]. by exists "", b.
      * destruct (IH Hc) as (a & b & ->). by exists (String c a), b.
  - intros (a & b & ->). apply contains_append_r, contains_prefix.
Qed.

Ltac find_occurrence :=
  first [ apply contains_self
        | apply contains_prefix
        | apply contains_append_r; find_occurrence ].

(** ** Claims about the error model *)
Section ErrorModelClaims.
Context {any : Type} `{Fmt any}.
Implicit Types (detail field : string) (value : any) (t : ErrorType).

(** The [switch] of [ErrorType.String] returns on the nine constants and
    panics on every other string. *)
Lemma ErrorType_String_cases t :
  (In t Part000.kinds /\ exists description, Part000.ErrorType_String t = Ok description) \/
  (~ In t Part000.kinds /\
   Part000.ErrorType_String t = Panic ("Unrecognized validation error: " +:+ fmt_q t)).
Proof.
  unfold Part000.ErrorType_String.
  repeat match goal with
    | |- context [String.eqb t ?c] =>
        destruct (String.eqb_spec t c) as [->|?];
        [left; split; [simpl; auto 12 | eexists; reflexivity]|]
    end.
  right. split; [|reflexivity].
  simpl. intros Hin. repeat destruct Hin as [Hin|Hin]; congruence.
Qed.

(** C4: the two-parameter [InvalidOperation] of the second file returns the
    kind operation-failed, the empty field and the value it was given; the
    [InvalidOperation] of [validator.go] has the detail as its only
    parameter and returns the kind operation-failed, the empty field and the
    empty string as the value. *)
Theorem InvalidOperation_fields detail value :
  (Type_ (Part000.InvalidOperation detail value) = kind_constant operation_failed /\
   Field (Part000.InvalidOperation detail value) = "" /\
   BadValue (Part000.InvalidOperation detail value) = value /\
   Detail (Part000.InvalidOperation detail value) = detail) /\
  (Type_ (ValidatorGo.InvalidOperation detail) = kind_constant operation_failed /\
   Field (ValidatorGo.InvalidOperation detail) = "" /\
   BadValue (ValidatorGo.InvalidOperation detail) = any_string "" /\
   Detail (ValidatorGo.InvalidOperation detail) = detail).
Proof. repeat split. Qed.

(** C5: the [const] block declares exactly nine kinds, pairwise different,
    the nine of the specification in its order, invalid-default-channel
    among them; [ErrorType.String] has a description for these nine and for
    nothing else; and [InvalidDefaultChannel] returns the kind
    invalid-default-channel, the empty field and the value it was given. *)
Theorem nine_kinds_and_InvalidDefaultChannel detail value t :
  length Part000.kinds = 9 /\
  NoDup Part000.kinds /\
  Part000.kinds = kind_constant <$> all_kinds /\
  In Part000.ErrorInvalidDefaultChannel Part000.kinds /\
  ((exists description, Part000.ErrorType_String t = Ok description) <->
   In t Part000.kinds) /\
  Type_ (Part000.InvalidDefaultChannel detail value) =
    kind_constant invalid_default_channel /\
  Field (Part000.InvalidDefaultChannel detail value) = "" /\
  BadValue (Part000.InvalidDefaultChannel detail value) = value.
Proof.
  split; [reflexivity|]. split; [|split; [reflexivity|]].
  { apply (bool_decide_unpack _). by vm_compute. }
  split; [simpl; auto 12|]. split; [|repeat split].
  destruct (ErrorType_String_cases t) as [[Hin Hok]|[Hout Hpanic]]; [tauto|].
  split; [|tauto]. intros [description Hok]. congruence.
Qed.

End ErrorModelClaims.

Section RenderingClaims.
Context {any : Type} `{Fmt any}.
Implicit Types (detail field : string) (value : any) (t : ErrorType).
Implicit Types (err : Error any).

(** C6: every constructor of the two files returns an error of the kind the
    specification documents for it, and the terse rendering [Error()] of
    the returned error is the detail argument, whatever the arguments. *)
Theorem constructors_kind_and_terse detail field value :
  (built_as invalid_document detail (Part000.InvalidCSV detail) /\
   built_as invalid_default_channel detail (Part000.InvalidDefaultChannel detail value) /\
   built_as optional_field_missing detail (Part000.OptionalFieldMissing detail field value) /\
   built_as mandatory_field_missing detail (Part000.MandatoryFieldMissing detail field value) /\
   built_as unsupported_type detail (Part000.UnsupportedType detail) /\
   built_as parse_error detail (Part000.InvalidParse detail value) /\
   built_as io_error detail (Part000.IOError detail value) /\
   built_as validation_failed detail (Part000.FailedValidation detail value) /\
   built_as operation_failed detail (Part000.InvalidOperation detail value)) /\
  (built_as invalid_document detail (ValidatorGo.InvalidCSV detail) /\
   built_as optional_field_missing detail (ValidatorGo.OptionalFieldMissing field value detail) /\
   built_as mandatory_field_missing detail (ValidatorGo.MandatoryFieldMissing field value detail) /\
   built_as unsupported_type detail (ValidatorGo.UnsupportedType detail) /\
   built_as parse_error detail (ValidatorGo.InvalidParse detail value) /\
   built_as io_error detail (ValidatorGo.IOError detail value) /\
   built_as validation_failed detail (ValidatorGo.FailedValidation detail value) /\
   built_as operation_failed detail (ValidatorGo.InvalidOperation detail)).
Proof. unfold built_as. repeat split. Qed.

(** C7: in [validator.go] the verbose rendering [String()] is the kind, the
    field, the display form of the value and the detail, in this order,
    between fixed labels; the kind appears as the string it is, that file
    having no table of descriptions.  In the second file [String()] returns
    the detail alone, as the terse rendering does. *)
Theorem verbose_rendering err :
  (ValidatorGo.Error_String err =
     "Error type: " +:+ Type_ err +:+ " | Field: " +:+ Field err +:+
     " | Value: " +:+ fmt_v (BadValue err) +:+ " | Detail: " +:+ Detail err /\
   contains (Type_ err) (ValidatorGo.Error_String err) = true /\
   contains (Field err) (ValidatorGo.Error_String err) = true /\
   contains (fmt_v (BadValue err)) (ValidatorGo.Error_String err) = true /\
   contains (Detail err) (ValidatorGo.Error_String err) = true) /\
  (Part000.Error_String err = Detail err /\
   Part000.Error_String err = Error_Error err).
Proof.
  split; [|split; reflexivity].
  split; [reflexivity|].
  unfold ValidatorGo.Error_String. repeat split; find_occurrence.
Qed.

(** C8: [ErrorType.String] panics exactly on the strings that are none of
    the nine constants, with a message that quotes the unrecognized kind;
    on the kind of an error built by any of the nine constructors it
    returns the description of that kind. *)
Theorem ErrorType_String_faults_iff t detail field value :
  ((exists msg, Part000.ErrorType_String t = Panic msg) <-> ~ In t Part000.kinds) /\
  (In t Part000.kinds \/
   Part000.ErrorType_String t =
     Panic ("Unrecognized validation error: " +:+ fmt_q t)) /\
  Part000.ErrorType_String (Type_ (Part000.InvalidCSV detail)) =
    Ok "CSV file not valid" /\
  Part000.ErrorType_String (Type_ (Part000.InvalidDefaultChannel detail value)) =
    Ok "Default channel not found" /\
  Part000.ErrorType_String (Type_ (Part000.OptionalFieldMissing detail field value)) =
    Ok "Optional field not found" /\
  Part000.ErrorType_String (Type_ (Part000.MandatoryFieldMissing detail field value)) =
    Ok "Mandatory field not found" /\
  Part000.ErrorType_String (Type_ (Part000.UnsupportedType detail)) =
    Ok "Field type not supported" /\
  Part000.ErrorType_String (Type_ (Part000.InvalidParse detail value)) =
    Ok "Unmarshall/Parse error" /\
  Part000.ErrorType_String (Type_ (Part000.IOError detail value)) =
    Ok "File read error" /\
  Part000.ErrorType_String (Type_ (Part000.FailedValidation detail value)) =
    Ok "Validation failed" /\
  Part000.ErrorType_String (Type_ (Part000.InvalidOperation detail value)) =
    Ok "Operation failed".
Proof.
  split; [|split; [|repeat split]].
  - destruct (ErrorType_String_cases t) as [[Hin [d Hok]]|[Hout Hpanic]].
    + split; [|tauto]. intros [msg Hmsg]. congruence.
    + split; [tauto|]. intros _. eauto.
  - destruct (ErrorType_String_cases t) as [[Hin _]|[_ Hpanic]]; auto.
Qed.

End RenderingClaims.

(** The eight kinds of [validator.go] are the first eight of the second
    file, string for string. *)
Lemma ValidatorGo_kinds : ValidatorGo.kinds = take 8 Part000.kinds.
Proof. reflexivity. Qed.

(** An unrecognized kind, run. *)
Example ErrorType_String_unrecognized :
  Part000.ErrorType_String "NoSuchKind" =
  Panic ("Unrecognized validation error: " +:+ quote_char +:+ "NoSuchKind" +:+ quote_char).
Proof. reflexivity. Qed.

(** C4, as stated, on [validator.go]: its [InvalidOperation] cannot be given
    a value, and the value of the error it returns is the empty string, not
    the value the caller has at hand. *)
Lemma InvalidOperation_value_counterexample :
  ~ (forall detail value : string,
       BadValue (ValidatorGo.InvalidOperation detail) = value).
Proof. intros Hall. discriminate (Hall "operation failed" "bundle.yaml"). Qed.

(** C7, as stated, on the second file: the verbose rendering of an I/O
    error with a value mentions neither the description of its kind nor the
    value. *)
Lemma verbose_mentions_all_counterexample :
  ~ verbose_mentions_all (Part000.IOError "cannot read the bundle" "bundle.yaml").
Proof.
  intros (description & Hdescription & Hmentions & _).
  vm_compute in Hdescription. injection Hdescription as <-.
  vm_compute in Hmentions. discriminate.
Qed.

(** The same error, rendered by the two files. *)
Example Error_String_two_files :
  ValidatorGo.Error_String (ValidatorGo.IOError "cannot read the bundle" "bundle.yaml") =
    "Error type: FileReadError | Field:  | Value: bundle.yaml | Detail: cannot read the bundle" /\
  Part000.Error_String (Part000.IOError "cannot read the bundle" "bundle.yaml") =
    "cannot read the bundle".
Proof. split; reflexivity. Qed.

(** ** More on registration *)
Section RegistrationProperties.
Context {any World : Type}.
Implicit Types (v : Validator any World) (vs acc : list (Validator any World)).
Implicit Types (set : ValidatorSet any World) (seenNames : gset string).

(** The names the loop appends are the given names that were not seen. *)
Lemma AddValidators_range_names vs seenNames (name : string) :
  name ∈ names (AddValidators_range vs seenNames []) ↔
  name ∈ names vs ∧ name ∉ seenNames.
Proof.
  unfold names. revert seenNames.
  induction vs as [|u vs IH]; intros seenNames; simpl.
  - split; [by intros ?%elem_of_nil|by intros [?%elem_of_nil _]].
  - destruct (decide (Validator_Name u ∈ seenNames)) as [Hu|Hu].
    + rewrite IH, elem_of_cons. split; [tauto|].
      intros [[->|Hin] Hout]; [done|tauto].
    + rewrite AddValidators_range_acc. simpl.
      rewrite !elem_of_cons, IH, not_elem_of_union, not_elem_of_singleton.
      destruct (decide (name = Validator_Name u)) as [->|Hne]; [tauto|tauto].
Qed.

(** The loop keeps the order in which the validators were given. *)
Lemma AddValidators_range_sublist vs seenNames :
  AddValidators_range vs seenNames [] `sublist_of` vs.
Proof.
  revert seenNames.
  induction vs as [|u vs IH]; intros seenNames; simpl.
  - constructor.
  - destruct (decide (Validator_Name u ∈ seenNames)).
    + apply sublist_cons, IH.
    + rewrite AddValidators_range_acc. simpl. apply sublist_skip, IH.
Qed.

(** Given distinct names, none of them seen, the loop appends them all. *)
Lemma AddValidators_range_all vs seenNames :
  NoDup (names vs) →
  (∀ name, name ∈ names vs → name ∉ seenNames) →
  AddValidators_range vs seenNames [] = vs.
Proof.
  unfold names. revert seenNames.
  induction vs as [|u vs IH]; intros seenNames Hnd Hnew; simpl; [done|].
  apply NoDup_cons in Hnd as [Hu Hnd].
  rewrite decide_False by (apply Hnew; left).
  rewrite AddValidators_range_acc. simpl. f_equal.
  apply IH; [done|]. intros name Hin.
  rewrite not_elem_of_union, not_elem_of_singleton. split.
  - intros ->. simpl in Hu. done.
  - apply Hnew. by right.
Qed.

(** The loop looks at [seenNames] only for the names it is given. *)
Lemma AddValidators_range_seen vs seen1 seen2 :
  (∀ name, name ∈ names vs → name ∈ seen1 ↔ name ∈ seen2) →
  AddValidators_range vs seen1 [] = AddValidators_range vs seen2 [].
Proof.
  unfold names. revert seen1 seen2.
  induction vs as [|u vs IH]; intros seen1 seen2 Hsame; simpl; [done|].
  assert (Validator_Name u ∈ seen1 ↔ Validator_Name u ∈ seen2) as Hu
    by (apply Hsame; left).
  assert (∀ name, name ∈ Validator_Name <$> vs → name ∈ seen1 ↔ name ∈ seen2)
    as Hrest by (intros name Hin; apply Hsame; by right).
  destruct (decide (Validator_Name u ∈ seen1)) as [H1|H1];
    destruct (decide (Validator_Name u ∈ seen2)) as [H2|H2]; try tauto.
  - by apply IH.
  - rewrite (AddValidators_range_acc _ _ [u]).
    rewrite (AddValidators_range_acc _ ({[Validator_Name u]} ∪ seen2) [u]).
    f_equal. apply IH. intros name Hin.
    rewrite !elem_of_union. specialize (Hrest name Hin). tauto.
Qed.

(** One pass over [vs1 ++ vs2] is a pass over [vs1] and then a pass over
    [vs2] that has seen the names of [vs1]. *)
Lemma AddValidators_range_app vs1 vs2 seenNames :
  AddValidators_range (vs1 ++ vs2) seenNames [] =
  AddValidators_range vs1 seenNames [] ++
  AddValidators_range vs2 (seenNames ∪ list_to_set (names vs1)) [].
Proof.
  unfold names. revert seenNames.
  induction vs1 as [|u vs1 IH]; intros seenNames; simpl.
  - by rewrite (right_id_L ∅ (∪)).
  - destruct (decide (Validator_Name u ∈ seenNames)) as [Hu|Hu].
    + rewrite IH. f_equal. apply AddValidators_range_seen. intros name _.
      rewrite !elem_of_union, elem_of_singleton.
      split; [tauto|]. intros [?|[->|?]]; tauto.
    + rewrite AddValidators_range_acc, IH.
      rewrite (AddValidators_range_acc vs1 _ [u]). simpl. f_equal. f_equal.
      apply AddValidators_range_seen. intros name _.
      rewrite !elem_of_union, elem_of_singleton. tauto.
Qed.

End RegistrationProperties.

Section RegistrationExtras.
Context {any World : Type}.
Implicit Types (v : Validator any World) (vs : list (Validator any World)).
Implicit Types (set : ValidatorSet any World).

(** X1: a set made by [NewValidatorSet] holds pairwise different names,
    exactly the names it was given, and its validators are validators it was
    given, in the order in which they were given. *)
Theorem NewValidatorSet_names vs (name : string) :
  NoDup (names (validators (NewValidatorSet vs))) ∧
  (name ∈ names (validators (NewValidatorSet vs)) ↔ name ∈ names vs) ∧
  validators (NewValidatorSet vs) `sublist_of` vs.
Proof.
  split; [apply AddValidators_range_NoDup|]. split.
  - unfold NewValidatorSet, AddValidators. simpl.
    rewrite AddValidators_range_names. split; [tauto|].
    intros Hin. split; [done|]. apply not_elem_of_empty.
  - apply AddValidators_range_sublist.
Qed.

(** X2: of the validators given under one name to one [NewValidatorSet]
    call, the set holds the first. *)
Theorem NewValidatorSet_keeps_first vs (name : string) :
  List.find (fun v => bool_decide (Validator_Name v = name))
            (validators (NewValidatorSet vs)) =
  List.find (fun v => bool_decide (Validator_Name v = name)) vs.
Proof.
  unfold NewValidatorSet, AddValidators. simpl.
  rewrite AddValidators_range_first. rewrite decide_False; [done|].
  apply not_elem_of_empty.
Qed.

(** X3: a call given pairwise different names appends every validator it is
    given, in order, also those whose name the set already holds. *)
Theorem AddValidators_distinct_names set vs :
  NoDup (names vs) →
  validators (AddValidators set vs) = validators set ++ vs.
Proof.
  intros Hnd. rewrite AddValidators_validators. f_equal.
  apply AddValidators_range_all; [done|].
  intros name _. apply not_elem_of_empty.
Qed.

(** X4: the names of a set stay pairwise different over a call that is
    given no name the set already holds. *)
Theorem AddValidators_keeps_names_unique set vs :
  NoDup (names (validators set)) →
  (∀ v, v ∈ vs → Validator_Name v ∉ names (validators set)) →
  NoDup (names (validators (AddValidators set vs))).
Proof.
  intros Hset Hnew. unfold names. rewrite AddValidators_validators, fmap_app.
  apply NoDup_app. split; [exact Hset|]. split; [|apply NewValidatorSet_NoDup].
  intros name Hold (v & -> & Hv)%list_elem_of_fmap.
  apply AddValidators_range_given in Hv. by apply (Hnew v).
Qed.

(** X5: a call that is given a name the set already holds leaves the set
    with that name twice. *)
Theorem AddValidators_repeats_name set vs v :
  v ∈ vs →
  Validator_Name v ∈ names (validators set) →
  ¬ NoDup (names (validators (AddValidators set vs))).
Proof.
  intros Hv Hold. unfold names. rewrite AddValidators_validators, fmap_app.
  intros (_ & Hdisjoint & _)%NoDup_app.
  apply (Hdisjoint (Validator_Name v) Hold).
  apply (AddValidators_range_names vs ∅). split.
  - apply list_elem_of_fmap. by exists v.
  - apply not_elem_of_empty.
Qed.

(** X6: the first validator given to a call is always appended, right after
    the validators the set held; the set never shrinks and grows by at most
    the number of validators given. *)
Theorem AddValidators_first_argument set v vs :
  validators (AddValidators set (v :: vs)) !! length (validators set) = Some v ∧
  (length (validators set) < length (validators (AddValidators set (v :: vs))))%nat ∧
  (length (validators (AddValidators set (v :: vs))) ≤
     length (validators set) + S (length vs))%nat.
Proof.
  rewrite AddValidators_validators.
  assert (validators (NewValidatorSet (v :: vs)) =
          v :: AddValidators_range vs ({[Validator_Name v]} ∪ ∅) []) as ->.
  { unfold NewValidatorSet, AddValidators. simpl.
    rewrite decide_False by apply not_elem_of_empty.
    by rewrite AddValidators_range_acc. }
  pose proof (sublist_length _ _
    (AddValidators_range_sublist vs ({[Validator_Name v]} ∪ ∅))) as Hlen.
  split; [|rewrite length_app; simpl; lia].
  rewrite lookup_app_r by lia. by rewrite Nat.sub_diag.
Qed.

(** X7: one call given [vs1 ++ vs2] registers what a call given [vs1]
    followed by a call given [vs2] registers, when no name of [vs2] is a
    name of [vs1]. *)
Theorem AddValidators_split_call set vs1 vs2 :
  (∀ name, name ∈ names vs2 → name ∉ names vs1) →
  AddValidators set (vs1 ++ vs2) = AddValidators (AddValidators set vs1) vs2.
Proof.
  intros Hdisjoint. unfold AddValidators. simpl. f_equal.
  rewrite (AddValidators_range_acc vs2 ∅ (AddValidators_range vs1 ∅ _)).
  rewrite (AddValidators_range_acc vs1), (AddValidators_range_acc (vs1 ++ vs2)).
  rewrite <- app_assoc. f_equal. rewrite AddValidators_range_app. f_equal.
  apply AddValidators_range_seen. intros name Hin.
  rewrite elem_of_union, elem_of_list_to_set.
  specialize (Hdisjoint name Hin). split; [|tauto].
  intros [Hempty|Hvs1]; [by apply not_elem_of_empty in Hempty|done].
Qed.

(** X8: making a set again from the validators of a set made by
    [NewValidatorSet] gives the same set. *)
Theorem NewValidatorSet_again vs :
  NewValidatorSet (validators (NewValidatorSet vs)) = NewValidatorSet vs.
Proof.
  unfold NewValidatorSet at 1. unfold AddValidators at 1. simpl.
  rewrite AddValidators_range_all.
  - reflexivity.
  - apply AddValidators_range_NoDup.
  - intros name _. apply not_elem_of_empty.
Qed.

End RegistrationExtras.

Lemma AddValidators_distinct_names_witness :
  validators (AddValidators (NewValidatorSet [csv_validator])
                            [csv_validator; channel_validator]) =
  validators (NewValidatorSet [csv_validator]) ++ [csv_validator; channel_validator].
Proof.
  apply (AddValidators_distinct_names (NewValidatorSet [csv_validator])
           [csv_validator; channel_validator]).
  apply (bool_decide_unpack _). by vm_compute.
Defined.

Lemma AddValidators_keeps_names_unique_witness :
  NoDup (names (validators (AddValidators (NewValidatorSet [csv_validator])
                                          [channel_validator]))).
Proof.
  apply (AddValidators_keeps_names_unique (NewValidatorSet [csv_validator])
           [channel_validator]).
  - apply (bool_decide_unpack _). by vm_compute.
  - intros v Hv%list_elem_of_singleton. subst v.
    apply (bool_decide_unpack _). by vm_compute.
Defined.

Lemma AddValidators_repeats_name_witness :
  ¬ NoDup (names (validators (AddValidators (NewValidatorSet [csv_validator])
                                            [csv_validator]))).
Proof.
  apply (AddValidators_repeats_name (NewValidatorSet [csv_validator])
           [csv_validator] csv_validator).
  - left.
  - apply (bool_decide_unpack _). by vm_compute.
Defined.

Lemma AddValidators_split_call_witness :
  AddValidators (NewValidatorSet []) ([csv_validator] ++ [channel_validator]) =
  AddValidators (AddValidators (NewValidatorSet []) [csv_validator]) [channel_validator].
Proof.
  apply (AddValidators_split_call (NewValidatorSet [])
           [csv_validator] [channel_validator]).
  intros name Hname%list_elem_of_singleton. subst name.
  apply (bool_decide_unpack _). by vm_compute.
Defined.

(** ** More on execution *)
Section ExecutionProperties.
Context {any World : Type}.
Implicit Types (v : Validator any World) (vs : list (Validator any World)).
Implicit Types (set : ValidatorSet any World) (w : World).

(** A run over [vs1 ++ vs2] is a run over [vs1] and then, in the world it
    left, a run over [vs2]. *)
Lemma ValidateAll_app vs1 vs2 w :
  ValidateAll {| validators := vs1 ++ vs2 |} w =
  (fst (ValidateAll {| validators := vs1 |} w) ++
     fst (ValidateAll {| validators := vs2 |}
            (snd (ValidateAll {| validators := vs1 |} w))),
   snd (ValidateAll {| validators := vs2 |}
          (snd (ValidateAll {| validators := vs1 |} w)))).
Proof.
  revert w. induction vs1 as [|v vs1 IH]; intros w.
  - change ([] ++ vs2) with vs2. rewrite ValidateAll_nil. simpl.
    by destruct (ValidateAll {| validators := vs2 |} w).
  - change ((v :: vs1) ++ vs2) with (v :: (vs1 ++ vs2)).
    rewrite !ValidateAll_cons, IH. simpl. by rewrite app_assoc.
Qed.

Lemma elem_of_concat {A : Type} (x : A) (ls : list (list A)) :
  x ∈ concat ls ↔ ∃ l, x ∈ l ∧ l ∈ ls.
Proof.
  induction ls as [|k ls IH]; simpl.
  - split; [by intros ?%elem_of_nil|by intros (l & _ & ?%elem_of_nil)].
  - rewrite elem_of_app, IH. split.
    + intros [Hx|(l & Hx & Hl)]; [exists k|exists l]; split; auto; by constructor.
    + intros (l & Hx & [->|Hl]%elem_of_cons); [by left|right; by exists l].
Qed.

(** X9: running a set after a call of [AddValidators] is running the set as
    it was and then, in the world that run left, running what the call
    appended; the results of the first run come first. *)
Theorem ValidateAll_AddValidators set vs w :
  ValidateAll (AddValidators set vs) w =
  (fst (ValidateAll set w) ++
     fst (ValidateAll (NewValidatorSet vs) (snd (ValidateAll set w))),
   snd (ValidateAll (NewValidatorSet vs) (snd (ValidateAll set w)))).
Proof.
  destruct set as [l].
  replace (AddValidators {| validators := l |} vs)
    with {| validators := l ++ validators (NewValidatorSet vs) |}
    by (unfold AddValidators; f_equal; simpl;
        symmetry; apply AddValidators_range_acc).
  rewrite ValidateAll_app. by destruct (NewValidatorSet vs).
Qed.

Lemma ValidateAll_snd_fold set w :
  snd (ValidateAll set w) =
  fold_left (fun w' v => snd (Validator_Validate v w')) (validators set) w.
Proof.
  destruct set as [l]. simpl. revert w.
  induction l as [|v l IH]; intros w; simpl; [reflexivity|].
  rewrite ValidateAll_cons. simpl. apply IH.
Qed.

(** X10: the world a run leaves is the world obtained by applying the
    effect of every registered validator once, in registration order; the
    results collected so far play no role in it. *)
Theorem ValidateAll_world set w :
  snd (ValidateAll set w) =
  fold_left (fun w' v => snd (Validator_Validate v w')) (validators set) w.
Proof.
  destruct set as [l]. simpl. revert w.
  induction l as [|v l IH]; intros w; simpl; [reflexivity|].
  rewrite ValidateAll_cons. simpl. apply IH.
Qed.

(** X11: the loop of [ValidateAll] with its accumulator returns the
    concatenation of the result lists of the validators, run once each in
    registration order, one list per registered validator. *)
Theorem ValidateAll_concat set w :
  ValidateAll set w =
    (concat (fst (Validate_each (validators set) w)),
     snd (Validate_each (validators set) w)) ∧
  length (fst (Validate_each (validators set) w)) = length (validators set).
Proof.
  destruct set as [l]. simpl. revert w.
  induction l as [|v l IH]; intros w; [by split|].
  rewrite ValidateAll_cons. simpl. unfold bind at 1 3 5.
  destruct (Validator_Validate v w) as [results w']. simpl.
  destruct (IH w') as [-> Hlen]. unfold bind, ret.
  destruct (Validate_each l w') as [rest w'']. simpl in *. by rewrite Hlen.
Qed.

(** X12: with validators that only read, the results of a run are the
    results of the validators in the world of the run, concatenated in
    registration order: a result is returned by the run exactly when a
    registered validator returns it. *)
Theorem ValidateAll_read_only_results set w (r : ManifestResult any) :
  Forall (fun v => forall w', snd (Validator_Validate v w') = w') (validators set) →
  fst (ValidateAll set w) =
    concat ((fun v => fst (Validator_Validate v w)) <$> validators set) ∧
  (r ∈ fst (ValidateAll set w) ↔
   ∃ v, v ∈ validators set ∧ r ∈ fst (Validator_Validate v w)).
Proof.
  intros Hro.
  assert (fst (ValidateAll set w) =
          concat ((fun v => fst (Validator_Validate v w)) <$> validators set)) as Heq.
  { destruct set as [l]. simpl in *.
    induction Hro as [|v l Hv _ IH]; [reflexivity|].
    rewrite ValidateAll_cons. simpl. by rewrite Hv, IH. }
  split; [exact Heq|]. rewrite Heq, elem_of_concat. split.
  - intros (rs & Hr & (v & -> & Hv)%list_elem_of_fmap). by exists v.
  - intros (v & Hv & Hr). exists (fst (Validator_Validate v w)).
    split; [done|]. apply list_elem_of_fmap. by exists v.
Qed.

End ExecutionProperties.

(** X13: with validators that each add their name to a log of the calls
    made, the log after a run is the log before it followed by the
    registered names in registration order: every registered validator is
    called once per run, in order. *)
Theorem ValidateAll_calls {any : Type} (set : ValidatorSet any (list string))
    (log : list string) :
  Forall (fun v => forall log', snd (Validator_Validate v log') =
                                log' ++ [Validator_Name v]) (validators set) →
  snd (ValidateAll set log) = log ++ names (validators set).
Proof.
  intros Hlog. rewrite ValidateAll_snd_fold. revert log.
  induction Hlog as [|v l Hv _ IH]; intros log; simpl.
  - by rewrite app_nil_r.
  - rewrite Hv, IH. by rewrite <- app_assoc.
Qed.

Lemma ValidateAll_read_only_results_witness :
  fst (ValidateAll reading_validators tt) =
    concat ((fun v => fst (Validator_Validate v tt)) <$> validators reading_validators) ∧
  (csv_result ∈ fst (ValidateAll reading_validators tt) ↔
   ∃ v, v ∈ validators reading_validators ∧ csv_result ∈ fst (Validator_Validate v tt)).
Proof.
  apply (ValidateAll_read_only_results reading_validators tt csv_result).
  vm_compute. repeat constructor.
Defined.

Lemma ValidateAll_calls_witness :
  snd (ValidateAll three_validators []) = [] ++ names (validators three_validators).
Proof.
  apply (ValidateAll_calls three_validators []).
  vm_compute. repeat constructor.
Defined.

(** ** More on the error model *)
Lemma length_append (a b : string) :
  String.length (a +:+ b) = String.length a + String.length b.
Proof.
  induction a as [|c a IH]; [reflexivity|].
  change (S (String.length (a +:+ b)) = S (String.length a + String.length b)).
  by rewrite IH.
Qed.

Lemma append_assoc (a b c : string) : a +:+ b +:+ c = (a +:+ b) +:+ c.
Proof.
  induction a as [|x a IH]; [reflexivity|].
  change (String x (a +:+ b +:+ c) = String x ((a +:+ b) +:+ c)).
  by rewrite IH.
Qed.

Section ErrorModelExtras.
Context {any : Type} `{Fmt any}.
Implicit Types (detail field : string) (value : any) (t : ErrorType).
Implicit Types (err : Error any).

(** X14: two kinds that [ErrorType.String] gives the same description are
    the same kind. *)
Theorem ErrorType_String_injective t1 t2 (description : string) :
  Part000.ErrorType_String t1 = Ok description →
  Part000.ErrorType_String t2 = Ok description →
  t1 = t2.
Proof.
  unfold Part000.ErrorType_String. intros H1 H2.
  repeat match goal with
    | Hd : context [String.eqb ?t ?c] |- _ =>
        destruct (String.eqb_spec t c); cbv iota in Hd
    end; subst; congruence.
Qed.

(** X15: an error returned by a constructor of either file has one of the
    nine kinds; its field is empty unless it is a field-missing error; and
    its value is the empty string when its kind is invalid-document or
    unsupported-type. *)
Theorem built_error_fields err :
  built_by_Part000 err ∨ built_by_ValidatorGo err →
  In (Type_ err) Part000.kinds ∧
  (Field err = "" ∨
   Type_ err = kind_constant optional_field_missing ∨
   Type_ err = kind_constant mandatory_field_missing) ∧
  (BadValue err = any_string "" ∨
   (Type_ err ≠ kind_constant invalid_document ∧
    Type_ err ≠ kind_constant unsupported_type)).
Proof.
  intros [Hb|Hb]; destruct Hb; simpl;
    (split; [auto 12|]); (split; [auto|]);
    first [by left | right; split; discriminate].
Qed.

(** X16: every error a constructor of [validator.go] can return, a
    constructor of the second file can return. *)
Theorem built_by_ValidatorGo_Part000 err :
  built_by_ValidatorGo err → built_by_Part000 err.
Proof.
  intros Hb; destruct Hb.
  - apply built_InvalidCSV.
  - apply built_OptionalFieldMissing.
  - apply built_MandatoryFieldMissing.
  - apply built_UnsupportedType.
  - apply built_InvalidParse.
  - apply built_IOError.
  - apply built_FailedValidation.
  - apply (built_InvalidOperation detail (any_string "")).
Qed.

(** X17: in [validator.go] the verbose rendering of an error ends with its
    terse rendering and is longer than the kind, the field, the display form
    of the value and the detail together by the 43 characters of the
    labels. *)
Theorem Error_String_length err :
  (∃ front, ValidatorGo.Error_String err = front +:+ Error_Error err) ∧
  String.length (ValidatorGo.Error_String err) =
    43 + String.length (Type_ err) + String.length (Field err) +
    String.length (fmt_v (BadValue err)) + String.length (Detail err).
Proof.
  split.
  - exists ("Error type: " +:+ Type_ err +:+ " | Field: " +:+ Field err +:+
            " | Value: " +:+ fmt_v (BadValue err) +:+ " | Detail: ").
    unfold ValidatorGo.Error_String, Error_Error.
    rewrite <- !append_assoc. reflexivity.
  - unfold ValidatorGo.Error_String. rewrite !length_append. simpl. lia.
Qed.

End ErrorModelExtras.

Lemma ErrorType_String_injective_witness :
  Part000.ErrorIO = "FileReadError".
Proof.
  apply (ErrorType_String_injective Part000.ErrorIO "FileReadError" "File read error");
    reflexivity.
Defined.

Lemma built_error_fields_witness :
  let err := Part000.OptionalFieldMissing "no icon" "spec.icon" "" in
  In (Type_ err) Part000.kinds ∧
  (Field err = "" ∨
   Type_ err = kind_constant optional_field_missing ∨
   Type_ err = kind_constant mandatory_field_missing) ∧
  (BadValue err = any_string "" ∨
   (Type_ err ≠ kind_constant invalid_document ∧
    Type_ err ≠ kind_constant unsupported_type)).
Proof.
  apply (built_error_fields (Part000.OptionalFieldMissing "no icon" "spec.icon" "")).
  left. apply built_OptionalFieldMissing.
Defined.

Lemma built_by_ValidatorGo_Part000_witness :
  built_by_Part000 (ValidatorGo.InvalidOperation (any:=string) "operation failed").
Proof.
  apply (built_by_ValidatorGo_Part000 (ValidatorGo.InvalidOperation "operation failed")).
  apply built_go_InvalidOperation.
Defined.

(** X18: a validator given to two separate [AddValidators] calls on a new
    set is run twice by every [ValidateAll], the second time in the world the
    first run left, and its results are returned twice. *)
Theorem ValidateAll_added_twice {any World : Type} (v : Validator any World) (w : World) :
  ValidateAll (AddValidators (AddValidators (NewValidatorSet []) [v]) [v]) w =
  (fst (Validator_Validate v w) ++
     fst (Validator_Validate v (snd (Validator_Validate v w))),
   snd (Validator_Validate v (snd (Validator_Validate v w)))).
Proof.
  replace (AddValidators (AddValidators (NewValidatorSet []) [v]) [v])
    with {| validators := [v; v] |} by reflexivity.
  rewrite !ValidateAll_cons, ValidateAll_nil. simpl. by rewrite app_nil_r.
Qed.

(** ** The nil slice *)
Section NilSlice.
Context {any World : Type}.
Implicit Types (v : Validator any World) (vs : list (Validator any World)).
Implicit Types (set : ValidatorSet any World) (w : World).
Implicit Types (s : slice (ManifestResult any)).

Lemma go_append_app s (xs ys : list (ManifestResult any)) :
  go_append s (xs ++ ys) = go_append (go_append s xs) ys.
Proof.
  destruct xs as [|x xs]; [reflexivity|].
  destruct ys as [|y ys]; simpl.
  - by rewrite app_nil_r.
  - by rewrite <- app_assoc.
Qed.

(** The slice the loop returns is the slice it started with, with the
    results of the run appended. *)
Lemma ValidateAll_slice_range_acc vs s w :
  ValidateAll_slice_range vs s w =
  (go_append s (fst (ValidateAll_range vs [] w)), snd (ValidateAll_range vs [] w)).
Proof.
  revert s w. induction vs as [|v vs IH]; intros s w; simpl.
  - reflexivity.
  - unfold bind. destruct (Validator_Validate v w) as [results w'].
    rewrite IH, (ValidateAll_range_acc vs ([] ++ results)). simpl.
    by rewrite go_append_app.
Qed.

(** The slice has the elements of the list result, and it is the nil slice
    exactly when there are none. *)
Lemma ValidateAll_slice_elems set w :
  slice_elems (fst (ValidateAll_slice set w)) = fst (ValidateAll set w) ∧
  snd (ValidateAll_slice set w) = snd (ValidateAll set w) ∧
  (fst (ValidateAll_slice set w) = nil_slice ↔ fst (ValidateAll set w) = []).
Proof.
  unfold ValidateAll_slice, ValidateAll. rewrite ValidateAll_slice_range_acc. simpl.
  destruct (fst (ValidateAll_range (validators set) [] w)) as [|r rs]; simpl.
  - by repeat split.
  - repeat split; intros; discriminate.
Qed.

(** A run in which no validator returns a result returns no result. *)
Lemma ValidateAll_range_silent vs w :
  Forall (fun results => results = []) (fst (Validate_each vs w)) →
  fst (ValidateAll_range vs [] w) = [].
Proof.
  revert w. induction vs as [|v vs IH]; intros w; [done|].
  simpl. unfold bind, ret.
  destruct (Validator_Validate v w) as [results w'].
  specialize (IH w'). destruct (Validate_each vs w') as [rest w'']. simpl in *.
  intros [-> Hrest]%Forall_cons. by apply IH.
Qed.

(** C3: when no registered validator returns a result in the run, and so on
    a set with no validators, [ValidateAll] returns a sequence with no
    elements, and the slice it returns is the nil slice: the named result
    is returned as it started. *)
Theorem ValidateAll_slice_no_results set w :
  Forall (fun results => results = []) (fst (Validate_each (validators set) w)) →
  fst (ValidateAll_slice set w) = nil_slice ∧
  slice_len (fst (ValidateAll_slice set w)) = 0 ∧
  fst (ValidateAll set w) = [] ∧
  snd (ValidateAll_slice set w) = snd (ValidateAll set w).
Proof.
  intros Hsilent. apply ValidateAll_range_silent in Hsilent.
  unfold ValidateAll_slice, ValidateAll.
  rewrite ValidateAll_slice_range_acc, Hsilent. by repeat split.
Qed.

End NilSlice.

(** A set that is silent in this run only: with the flag up it reports. *)
Lemma ValidateAll_slice_no_results_witness :
  fst (ValidateAll_slice moody_validators false) = nil_slice ∧
  slice_len (fst (ValidateAll_slice moody_validators false)) = 0 ∧
  fst (ValidateAll moody_validators false) = [] ∧
  snd (ValidateAll_slice moody_validators false) =
    snd (ValidateAll moody_validators false).
Proof.
  apply (ValidateAll_slice_no_results moody_validators false).
  vm_compute. repeat constructor.
Defined.

(** C3, as stated, on a set with no validators: the sequence returned has
    no elements, and it is the missing value of its type, the nil slice. *)
Lemma ValidateAll_no_validators_counterexample :
  ¬ empty_not_missing
      (fst (ValidateAll_slice (NewValidatorSet (any:=string) (World:=unit) []) tt)).
Proof. intros [_ Hnot_nil]. by apply Hnot_nil. Qed.

(** With the flag up the same set reports, and the slice has a backing
    array. *)
Example ValidateAll_slice_reports :
  fst (ValidateAll_slice moody_validators true) = make_slice [csv_result].
Proof. reflexivity. Qed.
